(** * Error aggregation of the jsonschema validator (errors.go)

    A shallow embedding of the pointer algebra ([joinPtr], [absPtr]), of the
    [ValidationError] tree with its context operations ([addContext],
    [finishSchemaContext], [finishInstanceContext], [add]) and of its two
    renderings ([Error], [GoString]), followed by the properties the
    specification states about them.

    Go strings are byte sequences: they are modelled by [string], a list of
    [ascii] bytes.  A pointer to a [ValidationError] is modelled by the node
    it points to, so a value of type [ValidationError] is a finite tree of nodes, each
    owning its causes. *)

From Stdlib Require Import String Ascii List Bool Arith Lia.
Import ListNotations.
Open Scope string_scope.

(** ** Pointer algebra *)

(** [joinPtr] of errors.go. *)
Definition joinPtr (ptr1 ptr2 : string) : string :=
  if Nat.eqb (String.length ptr1) 0 then ptr2
  else if Nat.eqb (String.length ptr2) 0 then ptr1
  else ptr1 ++ "/" ++ ptr2.

(** [absPtr] of errors.go.  The byte [ptr[0]] is read only after the test
    [ptr == ""] has failed, which is the second branch of the match. *)
Definition absPtr (ptr : string) : string :=
  match ptr with
  | EmptyString => "#"
  | String b _ => if negb (Ascii.eqb b "#"%char) then "#/" ++ ptr else ptr
  end.

(** ** The error taxonomy *)

(** Modelled from the spec: the [Schema] struct is declared outside
    errors.go; [finishSchemaContext] reads only its [URL] (document
    identity) and [Ptr] (path of the schema within its document). *)
Record Schema : Type := mkSchema { URL : string; Ptr : string }.

#[local] Set Warnings "-register-all".

(** The [ValidationError] struct, field for field. *)
Inductive ValidationError : Type :=
  mkValidationError {
    Message : string;
    InstancePtr : string;
    SchemaURL : string;
    SchemaPtr : string;
    Causes : list ValidationError
  }.

(** [validationError]: the message is the result of [fmt.Sprintf(format, a...)]. *)
Definition validationError (schemaPtr message : string) : ValidationError :=
  mkValidationError message EmptyString EmptyString schemaPtr [].

(** ** Context operations on a node *)

(** [addContext], after the type assertion of its first line.  The causes
    are statically pointers to [ValidationError], so the assertion made by
    each recursive call succeeds. *)
Fixpoint addContext (instancePtr schemaPtr : string) (ve : ValidationError)
  : ValidationError :=
  match ve with
  | mkValidationError msg ip url sp causes =>
      mkValidationError msg
        (joinPtr instancePtr ip)
        url
        (if String.eqb url EmptyString then joinPtr schemaPtr sp else sp)
        (map (addContext instancePtr schemaPtr) causes)
  end.

(** [finishSchemaContext], after its type assertion. *)
Fixpoint finishSchemaContext (ve : ValidationError) (s : Schema)
  : ValidationError :=
  match ve with
  | mkValidationError msg ip url sp causes =>
      if Nat.eqb (String.length url) 0 then
        mkValidationError msg ip (URL s) (joinPtr (Ptr s) sp)
          (map (fun cause => finishSchemaContext cause s) causes)
      else ve
  end.

(** [finishInstanceContext], after its type assertion. *)
Fixpoint finishInstanceContext (ve : ValidationError) : ValidationError :=
  match ve with
  | mkValidationError msg ip url sp causes =>
      mkValidationError msg (absPtr ip) url sp
        (map finishInstanceContext causes)
  end.

(** One round of the loop of [add]: the cause receives the context of the
    receiver and is appended to its causes. *)
Definition add1 (ve cause : ValidationError) : ValidationError :=
  mkValidationError (Message ve) (InstancePtr ve) (SchemaURL ve) (SchemaPtr ve)
    (Causes ve ++ [addContext (InstancePtr ve) (SchemaPtr ve) cause]).

(** The method [add] on causes that are nodes. *)
Definition add (ve : ValidationError) (causes : list ValidationError)
  : ValidationError :=
  fold_left add1 causes ve.

(** ** Rendering *)

Definition newline : ascii := "010"%char.

(** [strings.Split(s, sep)] of the Go library for a one-byte separator:
    [cut] returns the piece before the first separator and the pieces after. *)
Fixpoint cut (sep : ascii) (s : string) : string * list string :=
  match s with
  | EmptyString => (EmptyString, [])
  | String b rest =>
      let (piece, pieces) := cut sep rest in
      if Ascii.eqb b sep then (EmptyString, piece :: pieces)
      else (String b piece, pieces)
  end.

Definition Split (s : string) (sep : ascii) : list string :=
  let (piece, pieces) := cut sep s in piece :: pieces.

(** The method [Error]: the three fields in the fixed format of its
    [fmt.Sprintf]. *)
Definition Error (ve : ValidationError) : string :=
  "I[" ++ InstancePtr ve ++ "] S[" ++ SchemaPtr ve ++ "] " ++ Message ve.

(** The inner loop of [GoString]: every line of a cause's rendering is
    appended after a line break and two spaces. *)
Definition indentLines (msg : string) (lines : list string) : string :=
  fold_left (fun msg line => msg ++ String newline "  " ++ line) lines msg.

(** The method [GoString]. *)
Fixpoint GoString (ve : ValidationError) : string :=
  match ve with
  | mkValidationError _ _ _ _ causes =>
      fold_left
        (fun msg c => indentLines msg (Split (GoString c) newline))
        causes (Error ve)
  end.

(** The lines of a tree rendering as the specification describes them: the
    lines of the node, then the lines of each cause, in order, two spaces
    deeper. *)
Fixpoint renderLines (ve : ValidationError) : list string :=
  match ve with
  | mkValidationError _ _ _ _ causes =>
      List.app (Split (Error ve) newline)
        (map (fun line => "  " ++ line) (flat_map renderLines causes))
  end.

(** ** Nodes of a tree *)

(** The nodes of a tree, the root first, then the nodes of each cause. *)
Fixpoint nodes (ve : ValidationError) : list ValidationError :=
  match ve with
  | mkValidationError _ _ _ _ causes => ve :: flat_map nodes causes
  end.

(** The node reached from the root by following the causes at the given
    indices. *)
Fixpoint subtree_at (path : list nat) (ve : ValidationError)
  : option ValidationError :=
  match path with
  | [] => Some ve
  | i :: rest =>
      match nth_error (Causes ve) i with
      | Some cause => subtree_at rest cause
      | None => None
      end
  end.

(** A path starts with the root marker. *)
Definition rooted (ptr : string) : Prop := exists rest, ptr = String "#"%char rest.

(** No byte of the string is a line break. *)
Fixpoint oneLine (s : string) : bool :=
  match s with
  | EmptyString => true
  | String b rest => negb (Ascii.eqb b newline) && oneLine rest
  end.

(** Every node of the tree has a schema URL. *)
Fixpoint allFinalized (ve : ValidationError) : bool :=
  match ve with
  | mkValidationError _ _ url _ causes =>
      negb (String.eqb url EmptyString) && forallb allFinalized causes
  end.

(** No node that has a schema URL has a descendant without one. *)
Fixpoint urlClosed (ve : ValidationError) : bool :=
  match ve with
  | mkValidationError _ _ url _ causes =>
      (String.eqb url EmptyString || forallb allFinalized causes)
      && forallb urlClosed causes
  end.

(** The fragments of a path from the root to a leaf, joined in that order. *)
Definition joinAll (fragments : list string) : string :=
  fold_right joinPtr EmptyString fragments.

Definition nonEmpty (s : string) : bool := negb (String.eqb s EmptyString).

(** ** Error values and the unchecked type assertion *)

(** The values of Go's [error] interface that this package produces: the nil
    interface, or a value of one of the four error types of errors.go. *)
Inductive error : Type :=
| nilError
| anInvalidJSONTypeError (e : string)
| anInfiniteLoopError (e : string)
| aSchemaError (schemaURL : string) (err : error)
| aValidationError (ve : ValidationError).

(** The run-time failure of a type assertion written without the second
    result. *)
Inductive panic : Type := interfaceConversion.

Inductive outcome (A : Type) : Type :=
| Returns (a : A)
| Panics (p : panic).
Arguments Returns {A} a.
Arguments Panics {A} p.

Definition bind {A B : Type} (c : outcome A) (k : A -> outcome B) : outcome B :=
  match c with
  | Returns a => k a
  | Panics p => Panics p
  end.

Notation "x <- c ;; k" := (bind c (fun x => k))
  (at level 61, c at next level, right associativity).

(** A loop over a list that stops at the first panic. *)
Fixpoint forEach {A B : Type} (f : A -> outcome B) (l : list A)
  : outcome (list B) :=
  match l with
  | [] => Returns []
  | x :: rest =>
      y <- f x ;;
      ys <- forEach f rest ;;
      Returns (y :: ys)
  end.

(** The assertion that an error is a pointer to a [ValidationError]. *)
Definition assertValidationError (err : error) : outcome ValidationError :=
  match err with
  | aValidationError ve => Returns ve
  | _ => Panics interfaceConversion
  end.

(** The functions as they are called, on a value of the [error] interface.
    Each returns the node as the call leaves it. *)
Module Dyn.

Definition addContext (instancePtr schemaPtr : string) (err : error)
  : outcome error :=
  ve <- assertValidationError err ;;
  Returns (aValidationError (addContext instancePtr schemaPtr ve)).

Definition finishSchemaContext (err : error) (s : Schema)
  : outcome ValidationError :=
  ve <- assertValidationError err ;;
  Returns (finishSchemaContext ve s).

Definition finishInstanceContext (err : error) : outcome ValidationError :=
  ve <- assertValidationError err ;;
  Returns (finishInstanceContext ve).

(** The loop of [add]: the context is attached to the cause through
    [addContext], then the cause is asserted and appended. *)
Fixpoint add (ve : ValidationError) (causes : list error)
  : outcome ValidationError :=
  match causes with
  | [] => Returns ve
  | cause :: rest =>
      cause' <- addContext (InstancePtr ve) (SchemaPtr ve) cause ;;
      c <- assertValidationError cause' ;;
      add (mkValidationError (Message ve) (InstancePtr ve) (SchemaURL ve)
             (SchemaPtr ve) (Causes ve ++ [c])) rest
  end.

End Dyn.

(** ** Scenarios *)

(** A failure raised inside the schema document defs.json at the local
    schema path [localPtr]: it is finished against that schema, whose own
    pointer is [defsPtr], receives the context of the property addr from the
    referencing parent, and is then finished against the root schema and
    made absolute. *)
Definition crossReference (defsPtr localPtr message schemaPrefix : string)
  (root : Schema) : ValidationError :=
  finishInstanceContext
    (finishSchemaContext
       (addContext "addr" schemaPrefix
          (finishSchemaContext (validationError localPtr message)
             (mkSchema "defs.json" defsPtr)))
       root).

(** The same crossing as the validator builds it: the failure becomes the
    cause of a reference failure, which becomes the cause of a properties
    failure of the root schema. *)
Definition crossReferenceTree (root : Schema) : ValidationError :=
  let leaf :=
    finishSchemaContext (validationError "required" "missing properties")
      (mkSchema "defs.json" "#") in
  let ref := add (validationError "$ref" "doesn't validate") [leaf] in
  let top :=
    add (validationError EmptyString "validation failed")
      [addContext "addr" "properties/addr" ref] in
  finishInstanceContext (finishSchemaContext top root).

(** A node finished against b.json that receives a fresh cause afterwards. *)
Definition lateCause : ValidationError :=
  add (finishSchemaContext (validationError "allOf" "parent")
         (mkSchema "b.json" "#"))
      [validationError "type" "late"].

(** A parent whose first cause has a message of two lines. *)
Definition twoLineCause : ValidationError :=
  add (validationError "allOf" "parent")
      [validationError "type" (String "a" (String newline "b"));
       validationError "minimum" "c"].

(** ** Relating the nodes of two trees *)

(** The two trees have nodes at the same positions, and nodes at the same
    position are related by [R]. *)
Definition nodewise (R : ValidationError -> ValidationError -> Prop)
  (t t' : ValidationError) : Prop :=
  forall path,
    match subtree_at path t, subtree_at path t' with
    | Some n, Some n' => R n n'
    | None, None => True
    | _, _ => False
    end.

(** What attaching a context does to one node [n], giving [n']: the
    instance prefix is joined in front of the instance path, the schema
    prefix in front of the schema path if the node has no schema URL, and the
    message, the schema URL and the number of causes are kept. *)
Definition attached (instancePrefix schemaPrefix : string)
  (n n' : ValidationError) : Prop :=
  InstancePtr n' = joinPtr instancePrefix (InstancePtr n) /\
  SchemaPtr n' =
    (if String.eqb (SchemaURL n) EmptyString
     then joinPtr schemaPrefix (SchemaPtr n) else SchemaPtr n) /\
  Message n' = Message n /\
  SchemaURL n' = SchemaURL n /\
  List.length (Causes n') = List.length (Causes n).

Definition sameInstancePtr (n n' : ValidationError) : Prop :=
  InstancePtr n = InstancePtr n'.

(** The contexts of the keywords from the root to a leaf, each an instance
    fragment and a schema fragment, attached to a tree as the recursion of
    the validator returns: the innermost (last) first. *)
Definition attachAll (contexts : list (string * string))
  (ve : ValidationError) : ValidationError :=
  fold_right (fun context t => addContext (fst context) (snd context) t)
    ve contexts.

(** ** Trees the validator builds *)

(** The trees obtained by the calls the validator makes: a fresh failure;
    a cause added to a failure that has not been finished against a schema
    yet; a context attached; a tree finished against a schema or made
    absolute. *)
Inductive built : ValidationError -> Prop :=
| built_validationError schemaPtr message :
    built (validationError schemaPtr message)
| built_add1 ve cause :
    built ve -> SchemaURL ve = EmptyString -> built cause ->
    built (add1 ve cause)
| built_addContext instancePtr schemaPtr ve :
    built ve -> built (addContext instancePtr schemaPtr ve)
| built_finishSchemaContext ve s :
    built ve -> built (finishSchemaContext ve s)
| built_finishInstanceContext ve :
    built ve -> built (finishInstanceContext ve).

(** ** Further notions *)

(** The root marker test as a boolean. *)
Definition rootedb (ptr : string) : bool := String.prefix "#" ptr.

(** Every node that has a schema URL has a schema path that starts with the
    root marker. *)
Fixpoint finalizedRooted (ve : ValidationError) : bool :=
  match ve with
  | mkValidationError _ _ url sp causes =>
      (String.eqb url EmptyString || rootedb sp)
      && forallb finalizedRooted causes
  end.

(** A line moved two spaces to the right for every level of depth. *)
Fixpoint indent (depth : nat) (line : string) : string :=
  match depth with
  | 0 => line
  | S d => "  " ++ indent d line
  end.

(** One line per node, depth first, the causes in order, each node at the
    indentation of its depth. *)
Fixpoint depthLines (depth : nat) (ve : ValidationError) : list string :=
  match ve with
  | mkValidationError _ _ _ _ causes =>
      indent depth (Error ve) :: flat_map (depthLines (S depth)) causes
  end.

(** The way of a failure through the validator when no reference is
    crossed: it is raised for a keyword, receives the contexts of the
    enclosing keywords, innermost first, and is finished against the schema
    and made absolute at the top. *)
Definition validateLeaf (contexts : list (string * string))
  (keyword message : string) (s : Schema) : ValidationError :=
  finishInstanceContext
    (finishSchemaContext
       (attachAll contexts (validationError keyword message)) s).


(** * Properties *)

(** ** Strings *)

Lemma append_assoc (a b c : string) : (a ++ b) ++ c = a ++ (b ++ c).
Proof.
  induction a as [|x a IH]; simpl; [reflexivity | now rewrite IH].
Qed.

Lemma append_empty_r (a : string) : a ++ EmptyString = a.
Proof.
  induction a as [|x a IH]; simpl; [reflexivity | now rewrite IH].
Qed.

Lemma length_zero_eqb (s : string) :
  Nat.eqb (String.length s) 0 = String.eqb s EmptyString.
Proof. destruct s; reflexivity. Qed.

Lemma eqb_empty_false (s : string) :
  s <> EmptyString -> String.eqb s EmptyString = false.
Proof. intros H. now apply String.eqb_neq. Qed.

(** ** Pointer algebra *)

Lemma joinPtr_empty_l (x : string) : joinPtr EmptyString x = x.
Proof. reflexivity. Qed.

Lemma joinPtr_empty_r (x : string) : joinPtr x EmptyString = x.
Proof. destruct x; reflexivity. Qed.

Lemma joinPtr_cons (x y : ascii) (a b : string) :
  joinPtr (String x a) (String y b) = String x a ++ "/" ++ String y b.
Proof. reflexivity. Qed.

Lemma joinPtr_eq_empty (a b : string) :
  joinPtr a b = EmptyString -> a = EmptyString /\ b = EmptyString.
Proof.
  destruct a as [|x a]; [cbn; now intros -> |].
  destruct b as [|y b]; discriminate.
Qed.

(** Joining is associative: a chain of fragments may be joined from either
    end. *)
Lemma joinPtr_assoc (a b c : string) :
  joinPtr a (joinPtr b c) = joinPtr (joinPtr a b) c.
Proof.
  destruct a as [|x a]; [reflexivity |].
  destruct b as [|y b]; [reflexivity |].
  destruct c as [|z c]; [reflexivity |].
  cbn. f_equal. now rewrite append_assoc.
Qed.

(** C8: the empty path is a left and a right identity of [joinPtr], and the
    join of two non-empty paths is the first, one separator, the second. *)
Theorem joinPtr_identity_separator (x a b : string)
  (Ha : a <> EmptyString) (Hb : b <> EmptyString) :
  joinPtr EmptyString x = x /\
  joinPtr x EmptyString = x /\
  joinPtr a b = a ++ "/" ++ b.
Proof.
  split; [apply joinPtr_empty_l | split; [apply joinPtr_empty_r |]].
  destruct a as [|c a]; [contradiction |].
  destruct b as [|d b]; [contradiction |].
  apply joinPtr_cons.
Qed.

Lemma joinPtr_identity_separator_witness :
  joinPtr EmptyString "items/0" = "items/0" /\
  joinPtr "items/0" EmptyString = "items/0" /\
  joinPtr "properties" "age" = "properties" ++ "/" ++ "age".
Proof.
  apply (joinPtr_identity_separator "items/0" "properties" "age");
    discriminate.
Defined.

(** The separator is counted once in the length of a join. *)
Lemma joinPtr_length (a b : string) :
  a <> EmptyString -> b <> EmptyString ->
  String.length (joinPtr a b) = String.length a + 1 + String.length b.
Proof.
  intros Ha Hb.
  destruct (joinPtr_identity_separator a a b Ha Hb) as (_ & _ & ->).
  clear. induction a as [|x a IH]; simpl; [reflexivity | f_equal; exact IH].
Qed.

Lemma absPtr_rooted (p : string) : rooted (absPtr p).
Proof.
  destruct p as [|b p]; simpl.
  - now exists EmptyString.
  - destruct (Ascii.eqb_spec b "#"%char) as [-> | Hb]; simpl.
    + now exists p.
    + now exists (String "/" (String b p)).
Qed.

Lemma absPtr_of_rooted (p : string) : rooted p -> absPtr p = p.
Proof. intros [rest ->]. reflexivity. Qed.

(** C7: [absPtr] maps the empty path to the root marker, keeps a path that
    starts with the root marker, puts the root marker and a separator in
    front of any other path, and applying it twice is applying it once. *)
Theorem absPtr_cases_idempotent (p : string) :
  absPtr p =
    (if String.eqb p EmptyString then "#"
     else if String.prefix "#" p then p
     else "#/" ++ p) /\
  absPtr (absPtr p) = absPtr p.
Proof.
  split.
  - destruct p as [|b p]; [reflexivity |].
    cbn [absPtr String.eqb String.prefix].
    destruct (ascii_dec "#"%char b) as [<- | Hb].
    + rewrite Ascii.eqb_refl. destruct p; reflexivity.
    + replace (Ascii.eqb b "#"%char) with false; [reflexivity |].
      symmetry. apply Ascii.eqb_neq. congruence.
  - apply absPtr_of_rooted, absPtr_rooted.
Qed.

(** ** Trees *)

(** Induction on a tree with the property available for every cause. *)
Lemma ValidationError_tree_ind (P : ValidationError -> Prop)
  (Hnode : forall msg ip url sp causes,
      Forall P causes -> P (mkValidationError msg ip url sp causes)) :
  forall ve, P ve.
Proof.
  fix IH 1. intros [msg ip url sp causes]. apply Hnode.
  induction causes as [|c causes IHcauses]; constructor;
    [apply IH | exact IHcauses].
Qed.

Lemma subtree_at_nil (ve : ValidationError) : subtree_at [] ve = Some ve.
Proof. reflexivity. Qed.

(** Functions that rebuild a node and map themselves over its causes, as
    [addContext] and [finishInstanceContext] do, commute with positions and
    with the list of nodes. *)
Section TreeMaps.

Variable f : ValidationError -> ValidationError.
Hypothesis f_causes : forall n, Causes (f n) = map f (Causes n).

Lemma subtree_at_map :
  forall path ve, subtree_at path (f ve) = option_map f (subtree_at path ve).
Proof.
  induction path as [|i path IH]; intros ve; [reflexivity |].
  cbn [subtree_at]. rewrite f_causes, nth_error_map.
  destruct (nth_error (Causes ve) i) as [c|]; [apply IH | reflexivity].
Qed.

Lemma nodes_map : forall ve, nodes (f ve) = map f (nodes ve).
Proof.
  induction ve as [msg ip url sp causes IH] using ValidationError_tree_ind.
  pose proof (f_causes (mkValidationError msg ip url sp causes)) as Hc.
  destruct (f (mkValidationError msg ip url sp causes))
    as [msg' ip' url' sp' causes'] eqn:E.
  cbn in Hc. subst causes'. cbn [nodes map]. rewrite E. f_equal.
  clear E. induction IH as [|c causes Hc _ IHcauses]; [reflexivity |].
  cbn [map flat_map]. now rewrite map_app, Hc, IHcauses.
Qed.

Lemma nodewise_map (R : ValidationError -> ValidationError -> Prop) :
  (forall n, R n (f n)) -> forall t, nodewise R t (f t).
Proof.
  intros HR t path. rewrite subtree_at_map.
  destruct (subtree_at path t); [apply HR | exact I].
Qed.

End TreeMaps.

(** The positions of a tree reach exactly the nodes it lists. *)
Lemma in_nodes_iff_subtree_at (n : ValidationError) :
  forall ve, In n (nodes ve) <-> exists path, subtree_at path ve = Some n.
Proof.
  induction ve as [msg ip url sp causes IH] using ValidationError_tree_ind.
  cbn [nodes In]. rewrite in_flat_map. split.
  - intros [<- | (c & Hc & Hn)]; [now exists [] |].
    rewrite Forall_forall in IH. apply (IH c Hc) in Hn as [path Hpath].
    apply In_nth_error in Hc as [i Hi].
    exists (i :: path). cbn [subtree_at Causes]. now rewrite Hi.
  - intros [[|i path] Hpath]; [left; now injection Hpath |].
    right. cbn [subtree_at Causes] in Hpath.
    destruct (nth_error causes i) as [c|] eqn:Hi; [| discriminate].
    exists c. split; [now apply nth_error_In with i |].
    rewrite Forall_forall in IH. apply (IH c); [now apply nth_error_In with i |].
    now exists path.
Qed.

Lemma nodewise_refl (R : ValidationError -> ValidationError -> Prop) :
  (forall n, R n n) -> forall t, nodewise R t t.
Proof.
  intros HR t path. destruct (subtree_at path t); [apply HR | exact I].
Qed.

(** ** Attaching a context *)

Lemma Causes_addContext (i s : string) (ve : ValidationError) :
  Causes (addContext i s ve) = map (addContext i s) (Causes ve).
Proof. destruct ve; reflexivity. Qed.

Lemma InstancePtr_addContext (i s : string) (ve : ValidationError) :
  InstancePtr (addContext i s ve) = joinPtr i (InstancePtr ve).
Proof. destruct ve; reflexivity. Qed.

Lemma SchemaURL_addContext (i s : string) (ve : ValidationError) :
  SchemaURL (addContext i s ve) = SchemaURL ve.
Proof. destruct ve; reflexivity. Qed.

Lemma attached_addContext (i s : string) (n : ValidationError) :
  attached i s n (addContext i s n).
Proof.
  destruct n as [msg ip url sp causes]. unfold attached. cbn.
  repeat split. apply length_map.
Qed.

(** C3: [addContext] keeps the shape of the tree and, at the node and at
    every descendant, joins the instance prefix in front of the instance
    path, joins the schema prefix in front of the schema path exactly when
    the schema URL of that node is empty, and changes no other field. *)
Theorem addContext_attaches_every_node (instancePrefix schemaPrefix : string)
  (ve : ValidationError) :
  nodewise (attached instancePrefix schemaPrefix)
    ve (addContext instancePrefix schemaPrefix ve).
Proof.
  apply nodewise_map.
  - apply Causes_addContext.
  - apply attached_addContext.
Qed.

(** Two successive contexts compose into one: prefixes are joined, the
    outer in front. *)
Lemma addContext_compose (p1 s1 p2 s2 : string) :
  forall ve,
    addContext p2 s2 (addContext p1 s1 ve) =
    addContext (joinPtr p2 p1) (joinPtr s2 s1) ve.
Proof.
  induction ve as [msg ip url sp causes IH] using ValidationError_tree_ind.
  cbn [addContext]. rewrite joinPtr_assoc. f_equal.
  - destruct (String.eqb url EmptyString); [apply joinPtr_assoc | reflexivity].
  - rewrite map_map. apply map_ext_Forall. exact IH.
Qed.

(** The instance path that [addContext] writes does not depend on the
    schema prefix. *)
Lemma addContext_instance_only (i s s' : string) (ve : ValidationError) :
  nodewise sameInstancePtr (addContext i s ve) (addContext i s' ve).
Proof.
  intros path.
  rewrite !(subtree_at_map (addContext i _) (Causes_addContext i _)).
  destruct (subtree_at path ve) as [n|]; [| exact I].
  cbn. unfold sameInstancePtr. now rewrite !InstancePtr_addContext.
Qed.

Lemma attachAll_cons (context : string * string)
  (contexts : list (string * string)) (ve : ValidationError) :
  attachAll (context :: contexts) ve =
  addContext (fst context) (snd context) (attachAll contexts ve).
Proof. reflexivity. Qed.

Lemma Causes_attachAll (contexts : list (string * string)) :
  forall ve,
    Causes (attachAll contexts ve) = map (attachAll contexts) (Causes ve).
Proof.
  induction contexts as [|c contexts IH]; intros ve.
  - cbn. now rewrite map_id.
  - rewrite attachAll_cons, Causes_addContext, IH, map_map. reflexivity.
Qed.

Lemma InstancePtr_attachAll (contexts : list (string * string))
  (ve : ValidationError) :
  InstancePtr (attachAll contexts ve) =
  joinPtr (joinAll (map fst contexts)) (InstancePtr ve).
Proof.
  induction contexts as [|c contexts IH]; [reflexivity |].
  rewrite attachAll_cons, InstancePtr_addContext, IH.
  cbn [map joinAll fold_right]. apply joinPtr_assoc.
Qed.

Lemma concat_nonEmpty (x : string) (xs : list string) :
  nonEmpty x = true -> String.concat "/" (x :: xs) <> EmptyString.
Proof.
  destruct x as [|b x]; [discriminate |]. intros _.
  destruct xs; discriminate.
Qed.

(** Joining the fragments of a path is writing its non-empty fragments one
    after the other with one separator between neighbours. *)
Lemma joinAll_concat (fragments : list string) :
  joinAll fragments = String.concat "/" (filter nonEmpty fragments).
Proof.
  induction fragments as [|f fragments IH]; [reflexivity |].
  cbn [joinAll fold_right filter]. fold (joinAll fragments). rewrite IH.
  destruct f as [|b f]; [reflexivity |]. cbn [nonEmpty String.eqb negb].
  destruct (filter nonEmpty fragments) as [|g rest] eqn:E; [reflexivity |].
  assert (Hg : nonEmpty g = true).
  { assert (In g (filter nonEmpty fragments)) as Hin by (rewrite E; now left).
    now apply filter_In in Hin. }
  pose proof (concat_nonEmpty g rest Hg) as Hne.
  change (String.concat "/" (String b f :: g :: rest))
    with (String b f ++ "/" ++ String.concat "/" (g :: rest)).
  destruct (String.concat "/" (g :: rest)) as [|c tail];
    [now elim Hne | apply joinPtr_cons].
Qed.

Lemma joinAll_snoc (fragments : list string) (last : string) :
  joinAll (fragments ++ [last]) = joinPtr (joinAll fragments) last.
Proof.
  induction fragments as [|f fragments IH].
  - cbn. apply joinPtr_empty_r.
  - cbn [app joinAll fold_right] in *. fold (joinAll (fragments ++ [last])).
    fold (joinAll fragments). rewrite IH. apply joinPtr_assoc.
Qed.

(** C5: attaching the prefix [p1] and then the prefix [p2] gives every node
    the instance path that one attachment of [joinPtr p2 p1] gives it; and
    after attaching the contexts of a path, innermost first, the instance
    path of every node is the concatenation, with one separator between
    neighbours, of the non-empty fragments from the root to the leaf in
    that order, followed by the path the node had. *)
Theorem addContext_twice_joins_prefixes (p1 p2 s1 s2 s : string)
  (contexts : list (string * string)) (ve : ValidationError) :
  nodewise sameInstancePtr
    (addContext p2 s2 (addContext p1 s1 ve))
    (addContext (joinPtr p2 p1) s ve) /\
  nodewise
    (fun n n' =>
       InstancePtr n' =
       String.concat "/"
         (filter nonEmpty (map fst contexts ++ [InstancePtr n])))
    ve (attachAll contexts ve).
Proof.
  split.
  - rewrite addContext_compose. apply addContext_instance_only.
  - apply nodewise_map.
    + apply Causes_attachAll.
    + intros n.
      now rewrite InstancePtr_attachAll, <- joinAll_snoc, joinAll_concat.
Qed.

(** A fresh failure under the properties a, b and c, in that order from the
    root. *)
Lemma attachAll_example :
  InstancePtr
    (attachAll
       [("a", "properties/a"); ("b", "properties/b"); ("c", "properties/c")]
       (validationError "type" "t"))
  = "a/b/c".
Proof. reflexivity. Qed.

(** ** Making the instance paths absolute *)

Lemma Causes_finishInstanceContext (ve : ValidationError) :
  Causes (finishInstanceContext ve) = map finishInstanceContext (Causes ve).
Proof. destruct ve; reflexivity. Qed.

Lemma InstancePtr_finishInstanceContext (ve : ValidationError) :
  InstancePtr (finishInstanceContext ve) = absPtr (InstancePtr ve).
Proof. destruct ve; reflexivity. Qed.

(** C6: after [finishInstanceContext] the instance path of the node and of
    every descendant starts with the root marker. *)
Theorem finishInstanceContext_all_rooted (ve : ValidationError) :
  Forall (fun n => rooted (InstancePtr n)) (nodes (finishInstanceContext ve)).
Proof.
  rewrite (nodes_map finishInstanceContext Causes_finishInstanceContext).
  apply Forall_map, Forall_forall. intros n _.
  rewrite InstancePtr_finishInstanceContext. apply absPtr_rooted.
Qed.

(** Only the instance path changes, at every position of the tree. *)
Lemma finishInstanceContext_nodewise (ve : ValidationError) :
  nodewise
    (fun n n' =>
       InstancePtr n' = absPtr (InstancePtr n) /\
       Message n' = Message n /\ SchemaURL n' = SchemaURL n /\
       SchemaPtr n' = SchemaPtr n)
    ve (finishInstanceContext ve).
Proof.
  apply nodewise_map; [apply Causes_finishInstanceContext |].
  intros [msg ip url sp causes]. cbn. repeat split.
Qed.

Lemma finishInstanceContext_idempotent :
  forall ve,
    finishInstanceContext (finishInstanceContext ve) = finishInstanceContext ve.
Proof.
  induction ve as [msg ip url sp causes IH] using ValidationError_tree_ind.
  cbn [finishInstanceContext]. f_equal.
  - apply absPtr_of_rooted, absPtr_rooted.
  - rewrite map_map. apply map_ext_Forall. exact IH.
Qed.

(** ** Finishing against a schema *)

Lemma finishSchemaContext_set (ve : ValidationError) (s : Schema) :
  SchemaURL ve <> EmptyString -> finishSchemaContext ve s = ve.
Proof.
  destruct ve as [msg ip url sp causes]. cbn [SchemaURL]. intros Hurl.
  cbn [finishSchemaContext].
  now rewrite length_zero_eqb, (eqb_empty_false url Hurl).
Qed.

Lemma finishSchemaContext_unset (ve : ValidationError) (s : Schema) :
  SchemaURL ve = EmptyString ->
  finishSchemaContext ve s =
  mkValidationError (Message ve) (InstancePtr ve) (URL s)
    (joinPtr (Ptr s) (SchemaPtr ve))
    (map (fun cause => finishSchemaContext cause s) (Causes ve)).
Proof.
  destruct ve as [msg ip url sp causes]. cbn [SchemaURL]. intros ->.
  reflexivity.
Qed.

(** C2: a node whose schema URL is not empty is left as it is by
    [finishSchemaContext], causes included; so a child finished against the
    schema [B] is, after its parent has been finished against the schema
    [A], the same child with the URL of [B]. *)
Theorem finishSchemaContext_first_writer_wins
  (ve child : ValidationError) (A B : Schema)
  (msg ip url sp : string) (before after : list ValidationError)
  (Hset : SchemaURL ve <> EmptyString)
  (Hchild : SchemaURL child = EmptyString)
  (HB : URL B <> EmptyString) :
  finishSchemaContext ve A = ve /\
  SchemaURL (finishSchemaContext child B) = URL B /\
  nth_error
    (Causes
       (finishSchemaContext
          (mkValidationError msg ip url sp
             (before ++ finishSchemaContext child B :: after)) A))
    (List.length before)
  = Some (finishSchemaContext child B).
Proof.
  split; [now apply finishSchemaContext_set |].
  assert (HurlB : SchemaURL (finishSchemaContext child B) = URL B)
    by now rewrite (finishSchemaContext_unset child B Hchild).
  split; [exact HurlB |].
  assert (Hkept : finishSchemaContext (finishSchemaContext child B) A
                  = finishSchemaContext child B)
    by (apply finishSchemaContext_set; now rewrite HurlB).
  destruct (String.eqb_spec url EmptyString) as [-> | Hurl].
  - rewrite finishSchemaContext_unset by reflexivity.
    cbn [Causes]. rewrite nth_error_map, nth_error_app2 by lia.
    rewrite Nat.sub_diag. cbn. now rewrite Hkept.
  - rewrite finishSchemaContext_set by exact Hurl.
    cbn [Causes]. rewrite nth_error_app2 by lia.
    now rewrite Nat.sub_diag.
Qed.

Lemma finishSchemaContext_first_writer_wins_witness :
  finishSchemaContext
    (mkValidationError "m" "addr" "defs.json" "#/required" []) 
    (mkSchema "root.json" "#")
  = mkValidationError "m" "addr" "defs.json" "#/required" [] /\
  SchemaURL
    (finishSchemaContext (validationError "required" "m")
       (mkSchema "defs.json" "#"))
  = "defs.json" /\
  nth_error
    (Causes
       (finishSchemaContext
          (mkValidationError "p" EmptyString EmptyString "$ref"
             ([validationError "type" "t"] ++
              finishSchemaContext (validationError "required" "m")
                (mkSchema "defs.json" "#") :: []))
          (mkSchema "root.json" "#")))
    (List.length [validationError "type" "t"])
  = Some (finishSchemaContext (validationError "required" "m")
            (mkSchema "defs.json" "#")).
Proof.
  apply (finishSchemaContext_first_writer_wins
           (mkValidationError "m" "addr" "defs.json" "#/required" [])
           (validationError "required" "m")
           (mkSchema "root.json" "#") (mkSchema "defs.json" "#")
           "p" EmptyString EmptyString "$ref"
           [validationError "type" "t"] []);
    [discriminate | reflexivity | discriminate].
Defined.

Lemma allFinalized_nodes :
  forall ve,
    allFinalized ve = true <->
    Forall (fun n => SchemaURL n <> EmptyString) (nodes ve).
Proof.
  induction ve as [msg ip url sp causes IH] using ValidationError_tree_ind.
  cbn [allFinalized nodes]. rewrite andb_true_iff, Forall_cons_iff.
  rewrite Forall_flat_map, forallb_forall, negb_true_iff, String.eqb_neq.
  cbn [SchemaURL]. rewrite Forall_forall in IH. rewrite Forall_forall.
  split; intros [Hurl Hcauses]; (split; [exact Hurl |]);
    intros c Hc; apply (IH c Hc), Hcauses, Hc.
Qed.

Lemma allFinalized_urlClosed :
  forall ve, allFinalized ve = true -> urlClosed ve = true.
Proof.
  induction ve as [msg ip url sp causes IH] using ValidationError_tree_ind.
  cbn [allFinalized urlClosed]. rewrite !andb_true_iff.
  intros [_ Hcauses]. split; [rewrite Hcauses; apply orb_true_r |].
  rewrite forallb_forall in *. rewrite Forall_forall in IH.
  intros c Hc. apply (IH c Hc), Hcauses, Hc.
Qed.

Lemma forallb_ext_Forall (f g : ValidationError -> bool)
  (l : list ValidationError) :
  Forall (fun x => f x = g x) l -> forallb f l = forallb g l.
Proof.
  induction 1 as [|x l Hx _ IH]; [reflexivity |].
  cbn. now rewrite Hx, IH.
Qed.

Lemma forallb_map_compose (f : ValidationError -> bool)
  (g : ValidationError -> ValidationError) (l : list ValidationError) :
  forallb f (map g l) = forallb (fun x => f (g x)) l.
Proof.
  induction l as [|x l IH]; [reflexivity |]. cbn. now rewrite IH.
Qed.

(** Finishing against a schema with a URL leaves no node without one
    exactly when the tree was closed. *)
Lemma allFinalized_finishSchemaContext (s : Schema) :
  URL s <> EmptyString ->
  forall ve, allFinalized (finishSchemaContext ve s) = urlClosed ve.
Proof.
  intros Hs.
  induction ve as [msg ip url sp causes IH] using ValidationError_tree_ind.
  destruct (String.eqb_spec url EmptyString) as [-> | Hurl].
  - cbn [finishSchemaContext String.length Nat.eqb allFinalized urlClosed].
    rewrite (eqb_empty_false _ Hs). cbn [negb andb orb String.eqb].
    rewrite forallb_map_compose. now apply forallb_ext_Forall.
  - rewrite finishSchemaContext_set by exact Hurl.
    cbn [allFinalized urlClosed]. rewrite (eqb_empty_false _ Hurl).
    cbn [negb andb orb].
    destruct (forallb allFinalized causes) eqn:Hall; [| reflexivity].
    symmetry. apply forallb_forall. intros c Hc.
    apply allFinalized_urlClosed.
    rewrite forallb_forall in Hall. now apply Hall.
Qed.

(** C4, as the code has it: after [finishSchemaContext] against a schema
    whose URL is not empty, every node has a non-empty schema URL exactly
    when, before the call, no node with a schema URL had a descendant
    without one. *)
Theorem finishSchemaContext_all_finalized (ve : ValidationError) (s : Schema)
  (Hs : URL s <> EmptyString) :
  Forall (fun n => SchemaURL n <> EmptyString)
    (nodes (finishSchemaContext ve s))
  <-> urlClosed ve = true.
Proof.
  rewrite <- allFinalized_nodes.
  now rewrite (allFinalized_finishSchemaContext s Hs).
Qed.

Lemma finishSchemaContext_all_finalized_witness :
  URL (mkSchema "root.json" "#") <> EmptyString /\
  Forall (fun n => SchemaURL n <> EmptyString)
    (nodes
       (finishSchemaContext
          (add (validationError "$ref" "r")
             [finishSchemaContext (validationError "required" "m")
                (mkSchema "defs.json" "#")])
          (mkSchema "root.json" "#"))).
Proof.
  split; [discriminate |].
  apply (finishSchemaContext_all_finalized
           (add (validationError "$ref" "r")
              [finishSchemaContext (validationError "required" "m")
                 (mkSchema "defs.json" "#")])
           (mkSchema "root.json" "#"));
    [discriminate | reflexivity].
Defined.

(** C4 as the specification words it fails on a node that was finished
    against b.json before it received a cause: the call against a.json stops
    at that node, and the cause keeps its empty schema URL. *)
Lemma finishSchemaContext_all_finalized_counterexample :
  URL (mkSchema "a.json" "#") <> EmptyString /\
  finishSchemaContext lateCause (mkSchema "a.json" "#") =
    mkValidationError "parent" EmptyString "b.json" "#/allOf"
      [mkValidationError "late" EmptyString EmptyString "#/allOf/type" []] /\
  ~ Forall (fun n => SchemaURL n <> EmptyString)
      (nodes (finishSchemaContext lateCause (mkSchema "a.json" "#"))).
Proof.
  split; [discriminate |]. split; [reflexivity |].
  intros H. apply allFinalized_nodes in H. discriminate H.
Qed.

Lemma allFinalized_map_SchemaURL (f : ValidationError -> ValidationError)
  (Hcauses : forall n, Causes (f n) = map f (Causes n))
  (Hurl : forall n, SchemaURL (f n) = SchemaURL n) :
  forall ve, allFinalized (f ve) = allFinalized ve
             /\ urlClosed (f ve) = urlClosed ve.
Proof.
  induction ve as [msg ip url sp causes IH] using ValidationError_tree_ind.
  specialize (Hcauses (mkValidationError msg ip url sp causes)) as Hc.
  specialize (Hurl (mkValidationError msg ip url sp causes)) as Hu.
  destruct (f (mkValidationError msg ip url sp causes))
    as [msg' ip' url' sp' causes'].
  cbn in Hc, Hu. subst url' causes'. cbn [allFinalized urlClosed].
  rewrite !forallb_map_compose.
  assert (forallb (fun x => allFinalized (f x)) causes
          = forallb allFinalized causes) as ->.
  { apply forallb_ext_Forall. eapply Forall_impl; [| exact IH].
    now intros c [Hc _]. }
  assert (forallb (fun x => urlClosed (f x)) causes
          = forallb urlClosed causes) as ->.
  { apply forallb_ext_Forall. eapply Forall_impl; [| exact IH].
    now intros c [_ Hc]. }
  split; reflexivity.
Qed.

Lemma urlClosed_addContext (i s : string) (ve : ValidationError) :
  urlClosed (addContext i s ve) = urlClosed ve.
Proof.
  apply (allFinalized_map_SchemaURL (addContext i s)).
  - apply Causes_addContext.
  - apply SchemaURL_addContext.
Qed.

Lemma urlClosed_finishInstanceContext (ve : ValidationError) :
  urlClosed (finishInstanceContext ve) = urlClosed ve.
Proof.
  apply (allFinalized_map_SchemaURL finishInstanceContext).
  - apply Causes_finishInstanceContext.
  - now intros [].
Qed.

Lemma urlClosed_finishSchemaContext (s : Schema) :
  forall ve, urlClosed ve = true -> urlClosed (finishSchemaContext ve s) = true.
Proof.
  induction ve as [msg ip url sp causes IH] using ValidationError_tree_ind.
  intros Hclosed.
  destruct (String.eqb_spec url EmptyString) as [-> | Hurl].
  - cbn [urlClosed String.eqb orb andb] in Hclosed.
    cbn [finishSchemaContext String.length Nat.eqb urlClosed].
    rewrite forallb_forall in Hclosed. rewrite Forall_forall in IH.
    apply andb_true_iff. split.
    + destruct (String.eqb_spec (URL s) EmptyString) as [_ | Hs];
        [reflexivity |].
      cbn [orb]. rewrite forallb_map_compose. apply forallb_forall.
      intros c Hc. rewrite (allFinalized_finishSchemaContext s Hs).
      now apply Hclosed.
    + rewrite forallb_map_compose. apply forallb_forall.
      intros c Hc. apply (IH c Hc). now apply Hclosed.
  - now rewrite finishSchemaContext_set.
Qed.

Lemma urlClosed_add1 (ve cause : ValidationError) :
  SchemaURL ve = EmptyString ->
  urlClosed ve = true -> urlClosed cause = true ->
  urlClosed (add1 ve cause) = true.
Proof.
  destruct ve as [msg ip url sp causes]. cbn [SchemaURL]. intros ->.
  unfold add1.
  cbn [urlClosed String.eqb orb andb Message InstancePtr SchemaURL
       SchemaPtr Causes].
  intros Hve Hcause. rewrite forallb_app, Hve. cbn.
  now rewrite urlClosed_addContext, Hcause.
Qed.

(** Every tree the validator builds is closed. *)
Lemma built_urlClosed (ve : ValidationError) :
  built ve -> urlClosed ve = true.
Proof.
  induction 1 as [sp msg | ve cause _ IHve Hurl _ IHcause
                  | i s ve _ IH | ve s _ IH | ve _ IH].
  - reflexivity.
  - now apply urlClosed_add1.
  - now rewrite urlClosed_addContext.
  - now apply urlClosed_finishSchemaContext.
  - now rewrite urlClosed_finishInstanceContext.
Qed.

(** So finishing such a tree against a schema with a URL leaves no node
    without one. *)
Lemma built_all_finalized (ve : ValidationError) (s : Schema) :
  built ve -> URL s <> EmptyString ->
  allFinalized (finishSchemaContext ve s) = true.
Proof.
  intros Hbuilt Hs. rewrite (allFinalized_finishSchemaContext s Hs).
  now apply built_urlClosed.
Qed.

(** ** A reference into another schema document *)

Lemma length_append (a b : string) :
  String.length (a ++ b) = String.length a + String.length b.
Proof.
  induction a as [|x a IH]; cbn; [reflexivity | now rewrite IH].
Qed.

(** The crossing leaves the node with the URL of defs.json and with the
    schema path that the first call wrote; nothing of the root schema is
    read. *)
Lemma crossReference_eq (defsPtr localPtr message schemaPrefix : string)
  (root : Schema) :
  crossReference defsPtr localPtr message schemaPrefix root =
  mkValidationError message "#/addr" "defs.json" (joinPtr defsPtr localPtr) [].
Proof. reflexivity. Qed.

(** C1, as the code has it: the failure raised at the local schema path
    required, written without a separator in front, in defs.json, whose own
    pointer is the root marker, ends with the instance path #/addr, the
    schema URL defs.json and the schema path #/required, whatever the root
    schema is. *)
Theorem crossReference_keeps_external_schema (message schemaPrefix : string)
  (root : Schema) :
  crossReference "#" "required" message schemaPrefix root =
  mkValidationError message "#/addr" "defs.json" "#/required" [].
Proof. apply crossReference_eq. Qed.

(** C1 with the local schema path /required of the specification: the
    separator that [joinPtr] inserts comes on top of the one of the local
    path, and no pointer of defs.json gives the schema path #/required. *)
Lemma crossReference_counterexample :
  crossReference "#" "/required" "m" "$ref" (mkSchema "root.json" "#") =
    mkValidationError "m" "#/addr" "defs.json" "#//required" [] /\
  (forall defsPtr,
      SchemaPtr
        (crossReference defsPtr "/required" "m" "$ref"
           (mkSchema "root.json" "#"))
      <> "#/required").
Proof.
  split; [reflexivity |].
  intros defsPtr. rewrite crossReference_eq. cbn [SchemaPtr].
  destruct defsPtr as [|b p]; [discriminate |].
  rewrite joinPtr_cons. intros H. apply (f_equal String.length) in H.
  cbn in H. rewrite length_append in H. cbn in H. lia.
Qed.

(** The same crossing inside the tree that the validator returns: the
    failure of defs.json is the cause of the reference failure, which is the
    cause of the root failure. *)
Lemma crossReferenceTree_leaf (root : Schema) :
  subtree_at [0; 0] (crossReferenceTree root) =
  Some (mkValidationError "missing properties" "#/addr" "defs.json"
          "#/required" []).
Proof. reflexivity. Qed.

(** ** Rendering *)

Lemma oneLine_app (a b : string) :
  oneLine (a ++ b) = oneLine a && oneLine b.
Proof.
  induction a as [|x a IH]; cbn; [reflexivity |].
  now rewrite IH, andb_assoc.
Qed.

Lemma Split_cons (b : ascii) (s : string) :
  Split (String b s) newline =
  if Ascii.eqb b newline then EmptyString :: Split s newline
  else match Split s newline with
       | piece :: pieces => String b piece :: pieces
       | [] => []
       end.
Proof.
  unfold Split. cbn [cut]. destruct (cut newline s) as [piece pieces].
  now destruct (Ascii.eqb b newline).
Qed.

Lemma Split_oneLine (s : string) :
  oneLine s = true -> Split s newline = [s].
Proof.
  induction s as [|b s IH]; [reflexivity |].
  cbn [oneLine]. rewrite andb_true_iff, negb_true_iff. intros [Hb Hs].
  now rewrite Split_cons, Hb, (IH Hs).
Qed.

(** A line break after a line starts the next piece. *)
Lemma Split_line (a b : string) :
  oneLine a = true ->
  Split (a ++ String newline b) newline = a :: Split b newline.
Proof.
  induction a as [|x a IH]; intros Ha.
  - cbn [append]. now rewrite Split_cons, Ascii.eqb_refl.
  - cbn [oneLine] in Ha. rewrite andb_true_iff, negb_true_iff in Ha.
    destruct Ha as [Hx Ha]. cbn [append].
    now rewrite Split_cons, Hx, (IH Ha).
Qed.

(** The same for a line that the rendering indents. *)
Lemma Split_indented_line (a b : string) :
  oneLine a = true ->
  Split ("  " ++ a ++ String newline b) newline =
  ("  " ++ a) :: Split b newline.
Proof.
  intros Ha.
  change ("  " ++ a ++ String newline b)
    with (("  " ++ a) ++ String newline b).
  apply Split_line. exact Ha.
Qed.

Lemma GoString_leaf (ve : ValidationError) :
  Causes ve = [] -> GoString ve = Error ve.
Proof. destruct ve as [msg ip url sp causes]. cbn. now intros ->. Qed.

(** The rendering of a parent of two leaves whose renderings are lines. *)
Lemma GoString_two_leaves (msg ip url sp : string) (c1 c2 : ValidationError) :
  Causes c1 = [] -> Causes c2 = [] ->
  oneLine (Error c1) = true -> oneLine (Error c2) = true ->
  GoString (mkValidationError msg ip url sp [c1; c2]) =
  Error (mkValidationError msg ip url sp [c1; c2])
    ++ String newline ("  " ++ Error c1
    ++ String newline ("  " ++ Error c2)).
Proof.
  intros H1 H2 L1 L2. cbn [GoString fold_left].
  rewrite (GoString_leaf c1 H1), (GoString_leaf c2 H2).
  rewrite (Split_oneLine _ L1), (Split_oneLine _ L2).
  cbn [indentLines fold_left]. rewrite !append_assoc.
  reflexivity.
Qed.

(** C9, as the code has it: when the single-node renderings of a parent and
    of its two leaf causes contain no line break, the tree rendering is the
    rendering of the parent, then that of each cause in the order of the
    causes, each after a line break and two spaces: three lines. *)
Theorem GoString_two_leaf_causes_three_lines (msg ip url sp : string)
  (c1 c2 : ValidationError)
  (Hleaf1 : Causes c1 = []) (Hleaf2 : Causes c2 = [])
  (Hline : oneLine (Error (mkValidationError msg ip url sp [c1; c2])) = true)
  (Hline1 : oneLine (Error c1) = true) (Hline2 : oneLine (Error c2) = true) :
  Split (GoString (mkValidationError msg ip url sp [c1; c2])) newline =
  [ Error (mkValidationError msg ip url sp [c1; c2]);
    "  " ++ Error c1;
    "  " ++ Error c2 ].
Proof.
  rewrite (GoString_two_leaves msg ip url sp c1 c2 Hleaf1 Hleaf2 Hline1 Hline2).
  rewrite (Split_line _ _ Hline).
  rewrite (Split_indented_line _ _ Hline1).
  now rewrite (Split_oneLine ("  " ++ Error c2)) by exact Hline2.
Qed.

Lemma GoString_two_leaf_causes_three_lines_witness :
  Split
    (GoString
       (mkValidationError "parent" "#" "root.json" "#/allOf"
          [mkValidationError "t" "#" "root.json" "#/allOf/0/type" [];
           mkValidationError "m" "#" "root.json" "#/allOf/1/minimum" []]))
    newline =
  [ "I[#] S[#/allOf] parent";
    "  I[#] S[#/allOf/0/type] t";
    "  I[#] S[#/allOf/1/minimum] m" ].
Proof.
  apply (GoString_two_leaf_causes_three_lines
           "parent" "#" "root.json" "#/allOf"
           (mkValidationError "t" "#" "root.json" "#/allOf/0/type" [])
           (mkValidationError "m" "#" "root.json" "#/allOf/1/minimum" []));
    reflexivity.
Defined.

(** *** The lines of any tree rendering *)

Lemma Split_pieces (s : string) :
  exists piece pieces, Split s newline = piece :: pieces.
Proof.
  unfold Split. destruct (cut newline s) as [piece pieces]. now eexists _, _.
Qed.

Lemma Split_app_newline (a b : string) :
  Split (a ++ String newline b) newline
  = (Split a newline ++ Split b newline)%list.
Proof.
  induction a as [|x a IH]; cbn [append].
  - now rewrite Split_cons, Ascii.eqb_refl.
  - rewrite !Split_cons, IH. destruct (Ascii.eqb x newline); [reflexivity |].
    now destruct (Split_pieces a) as (piece & pieces & ->).
Qed.

Lemma Split_all_oneLine (s : string) :
  Forall (fun l => oneLine l = true) (Split s newline).
Proof.
  induction s as [|x s IH]; [now repeat constructor |].
  rewrite Split_cons. destruct (Ascii.eqb x newline) eqn:Hx.
  - now constructor.
  - destruct (Split s newline) as [|piece pieces]; [constructor |].
    inversion IH as [|? ? Hpiece Hpieces]; subst.
    constructor; [| exact Hpieces]. cbn [oneLine]. now rewrite Hx, Hpiece.
Qed.

Lemma Split_indentLines (lines : list string) :
  Forall (fun l => oneLine l = true) lines ->
  forall msg,
    Split (indentLines msg lines) newline =
    List.app (Split msg newline) (map (fun line => "  " ++ line) lines).
Proof.
  unfold indentLines.
  induction 1 as [|l lines Hl _ IH]; intros msg; cbn [fold_left map].
  - now rewrite app_nil_r.
  - rewrite IH.
    change (msg ++ String newline "  " ++ l)
      with (msg ++ String newline ("  " ++ l)).
    rewrite Split_app_newline, (Split_oneLine ("  " ++ l)) by exact Hl.
    now rewrite <- app_assoc.
Qed.

(** The tree rendering, cut at its line breaks, is the lines of the node
    followed by the lines of the causes, depth first, each two spaces deeper
    than in the rendering of the cause. *)
Lemma Split_GoString :
  forall ve, Split (GoString ve) newline = renderLines ve.
Proof.
  induction ve as [msg ip url sp causes IH] using ValidationError_tree_ind.
  cbn [GoString renderLines].
  generalize (Error (mkValidationError msg ip url sp causes)) as acc.
  induction IH as [|c causes Hc _ IHcauses]; intros acc; cbn [fold_left flat_map].
  - cbn. now rewrite app_nil_r.
  - rewrite IHcauses, Split_indentLines by apply Split_all_oneLine.
    now rewrite Hc, map_app, app_assoc.
Qed.

(** C9 as the specification words it fails when a message has two lines:
    both are rendered, and the tree rendering has four lines. *)
Lemma GoString_two_leaf_causes_counterexample :
  map Causes (Causes twoLineCause) = [[]; []] /\
  Split (GoString twoLineCause) newline =
  [ "I[] S[allOf] parent";
    "  I[] S[allOf/type] a";
    "  b";
    "  I[] S[allOf/minimum] c" ].
Proof. split; reflexivity. Qed.

(** ** The unchecked type assertion *)

Lemma forEach_Returns {A B : Type} (f : A -> outcome B) (g : A -> B)
  (l : list A) :
  (forall x, f x = Returns (g x)) -> forEach f l = Returns (map g l).
Proof.
  intros Hf. induction l as [|x l IH]; [reflexivity |].
  cbn [forEach map]. now rewrite Hf, IH.
Qed.

(** The functions on error values obey the recursion of the source: the
    node is updated, and each cause is passed to the same function as an
    error value and asserted back. *)
Lemma Dyn_addContext_unfold (i s msg ip url sp : string)
  (causes : list ValidationError) :
  Dyn.addContext i s (aValidationError (mkValidationError msg ip url sp causes))
  = causes' <- forEach
                 (fun cause =>
                    r <- Dyn.addContext i s (aValidationError cause) ;;
                    assertValidationError r)
                 causes ;;
    Returns
      (aValidationError
         (mkValidationError msg (joinPtr i ip) url
            (if String.eqb url EmptyString then joinPtr s sp else sp)
            causes')).
Proof.
  rewrite (forEach_Returns _ (addContext i s)) by reflexivity.
  reflexivity.
Qed.

Lemma Dyn_finishSchemaContext_unfold (msg ip url sp : string)
  (causes : list ValidationError) (s : Schema) :
  Dyn.finishSchemaContext
    (aValidationError (mkValidationError msg ip url sp causes)) s
  = if Nat.eqb (String.length url) 0 then
      causes' <- forEach
                   (fun cause =>
                      Dyn.finishSchemaContext (aValidationError cause) s)
                   causes ;;
      Returns (mkValidationError msg ip (URL s) (joinPtr (Ptr s) sp) causes')
    else Returns (mkValidationError msg ip url sp causes).
Proof.
  rewrite (forEach_Returns _ (fun cause => finishSchemaContext cause s))
    by reflexivity.
  cbn. now destruct (Nat.eqb (String.length url) 0).
Qed.

Lemma Dyn_finishInstanceContext_unfold (msg ip url sp : string)
  (causes : list ValidationError) :
  Dyn.finishInstanceContext
    (aValidationError (mkValidationError msg ip url sp causes))
  = causes' <- forEach
                 (fun cause => Dyn.finishInstanceContext (aValidationError cause))
                 causes ;;
    Returns (mkValidationError msg (absPtr ip) url sp causes').
Proof.
  rewrite (forEach_Returns _ finishInstanceContext) by reflexivity.
  reflexivity.
Qed.


Lemma assert_other (err : error) :
  (forall n, err <> aValidationError n) ->
  assertValidationError err = Panics interfaceConversion.
Proof.
  intros Hother. destruct err as [| e | e | u e | n]; try reflexivity.
  now elim (Hother n).
Qed.

(** A cause that is not a node stops [add] at the assertion, whatever the
    causes before it. *)
Lemma Dyn_add_other (before after : list error) (err : error) :
  (forall n, err <> aValidationError n) ->
  Forall (fun e => exists n, e = aValidationError n) before ->
  forall ve,
    Dyn.add ve (before ++ err :: after) = Panics interfaceConversion.
Proof.
  intros Hother Hbefore.
  induction Hbefore as [|e before [n ->] _ IH]; intros ve.
  - cbn [app Dyn.add]. unfold Dyn.addContext.
    now rewrite (assert_other err Hother).
  - cbn [app Dyn.add Dyn.addContext assertValidationError bind]. apply IH.
Qed.



(** * Further properties of the code *)

(** ** Pointer algebra *)

(** X1: [joinPtr] is associative, so a path may be composed from its
    fragments in any grouping. *)
Theorem joinPtr_associative (a b c : string) :
  joinPtr a (joinPtr b c) = joinPtr (joinPtr a b) c.
Proof. apply joinPtr_assoc. Qed.

Lemma rootedb_rooted (p : string) : rootedb p = true <-> rooted p.
Proof.
  unfold rootedb, rooted. destruct p as [|b p]; cbn [String.prefix].
  - split; [discriminate | intros [rest H]; discriminate H].
  - destruct (ascii_dec "#"%char b) as [<- | Hb].
    + split; [now exists p | intros _; now destruct p].
    + split; [discriminate |]. intros [rest H]. injection H as -> _.
      now elim Hb.
Qed.

Lemma rooted_joinPtr (a b : string) : rooted a -> rooted (joinPtr a b).
Proof.
  intros [rest ->]. destruct b as [|y b].
  - rewrite joinPtr_empty_r. now exists rest.
  - rewrite joinPtr_cons. cbn. now eexists.
Qed.

Lemma absPtr_joinPtr_nonempty (a b : string) :
  a <> EmptyString -> absPtr (joinPtr a b) = joinPtr (absPtr a) b.
Proof.
  destruct a as [|x a]; [contradiction |]. intros _.
  destruct b as [|y b].
  - rewrite !joinPtr_empty_r. reflexivity.
  - rewrite joinPtr_cons. cbn [append absPtr].
    destruct (Ascii.eqb x "#"%char); reflexivity.
Qed.

(** X2: making a joined path absolute is joining onto the absolute prefix,
    provided the prefix is not empty or the suffix does not start with the
    root marker itself. *)
Theorem absPtr_joinPtr (a b : string)
  (Hab : a <> EmptyString \/ rootedb b = false) :
  absPtr (joinPtr a b) = joinPtr (absPtr a) b.
Proof.
  destruct a as [|x a].
  - destruct Hab as [Ha | Hb]; [now elim Ha |].
    destruct b as [|y b]; [reflexivity |].
    cbn [joinPtr String.length Nat.eqb absPtr].
    unfold rootedb in Hb. cbn [String.prefix] in Hb.
    destruct (ascii_dec "#"%char y) as [<- | Hy].
    + now destruct b.
    + replace (Ascii.eqb y "#"%char) with false; [reflexivity |].
      symmetry. apply Ascii.eqb_neq. congruence.
  - apply absPtr_joinPtr_nonempty. discriminate.
Qed.

Lemma absPtr_joinPtr_witness :
  absPtr (joinPtr "items" "0") = joinPtr (absPtr "items") "0" /\
  absPtr (joinPtr EmptyString "age") = joinPtr (absPtr EmptyString) "age".
Proof.
  split.
  - apply (absPtr_joinPtr "items" "0"). left. discriminate.
  - apply (absPtr_joinPtr EmptyString "age"). right. reflexivity.
Defined.

(** ** Attaching a context *)

(** X3: two successive calls of [addContext] are one call with the
    prefixes joined, the later one in front, on the whole tree: instance
    paths, schema paths and causes. *)
Theorem addContext_composes (p1 s1 p2 s2 : string) (ve : ValidationError) :
  addContext p2 s2 (addContext p1 s1 ve) =
  addContext (joinPtr p2 p1) (joinPtr s2 s1) ve.
Proof. apply addContext_compose. Qed.

Lemma addContext_empty_instance (s : string) :
  forall ve,
    (String.eqb s EmptyString || allFinalized ve) = true ->
    addContext EmptyString s ve = ve.
Proof.
  induction ve as [msg ip url sp causes IH] using ValidationError_tree_ind.
  intros H. cbn [addContext joinPtr String.length Nat.eqb]. f_equal.
  - destruct (String.eqb_spec s EmptyString) as [-> | _].
    + now destruct (String.eqb url EmptyString).
    + cbn [orb allFinalized] in H. apply andb_true_iff in H as [Hurl _].
      apply negb_true_iff in Hurl. now rewrite Hurl.
  - rewrite <- (map_id causes) at 2. apply map_ext_Forall.
    rewrite Forall_forall in *. intros c Hc. apply (IH c Hc).
    destruct (String.eqb s EmptyString); [reflexivity |].
    cbn [orb allFinalized] in *. apply andb_true_iff in H as [_ Hcs].
    rewrite forallb_forall in Hcs. now apply Hcs.
Qed.

(** X4: with an empty instance prefix [addContext] leaves the tree as it
    is when the schema prefix is empty too, or when every node of the tree
    already has a schema URL. *)
Theorem addContext_without_effect (s : string) (ve : ValidationError)
  (H : (String.eqb s EmptyString || allFinalized ve) = true) :
  addContext EmptyString s ve = ve.
Proof. now apply addContext_empty_instance. Qed.

Lemma addContext_without_effect_witness :
  addContext EmptyString "$ref"
    (mkValidationError "m" "addr" "defs.json" "#/required"
       [mkValidationError "n" "addr/x" "defs.json" "#/required/0" []])
  = mkValidationError "m" "addr" "defs.json" "#/required"
      [mkValidationError "n" "addr/x" "defs.json" "#/required/0" []].
Proof.
  apply (addContext_without_effect "$ref"
           (mkValidationError "m" "addr" "defs.json" "#/required"
              [mkValidationError "n" "addr/x" "defs.json" "#/required/0" []])).
  reflexivity.
Defined.

(** ** Finishing against a schema *)

Lemma SchemaURL_finishSchemaContext (ve : ValidationError) (s : Schema) :
  SchemaURL (finishSchemaContext ve s) =
  if String.eqb (SchemaURL ve) EmptyString then URL s else SchemaURL ve.
Proof.
  destruct ve as [msg ip url sp causes].
  cbn [finishSchemaContext SchemaURL]. rewrite length_zero_eqb.
  now destruct (String.eqb url EmptyString).
Qed.

(** X5: once a tree has been finished against a schema whose URL is not
    empty, finishing it again, against any schema, changes nothing. *)
Theorem finishSchemaContext_once (ve : ValidationError) (s s' : Schema)
  (Hs : URL s <> EmptyString) :
  finishSchemaContext (finishSchemaContext ve s) s' = finishSchemaContext ve s.
Proof.
  apply finishSchemaContext_set. rewrite SchemaURL_finishSchemaContext.
  destruct (String.eqb_spec (SchemaURL ve) EmptyString) as [_ | Hurl];
    assumption.
Qed.

Lemma finishSchemaContext_once_witness :
  finishSchemaContext
    (finishSchemaContext (validationError "type" "t") (mkSchema "defs.json" "#"))
    (mkSchema "root.json" "#/properties/a")
  = finishSchemaContext (validationError "type" "t") (mkSchema "defs.json" "#").
Proof.
  apply (finishSchemaContext_once (validationError "type" "t")
           (mkSchema "defs.json" "#") (mkSchema "root.json" "#/properties/a")).
  discriminate.
Defined.

Lemma finishSchemaContext_no_URL (s : Schema) :
  URL s = EmptyString ->
  forall ve,
    urlClosed ve = true ->
    finishSchemaContext ve s = addContext EmptyString (Ptr s) ve.
Proof.
  intros Hs.
  induction ve as [msg ip url sp causes IH] using ValidationError_tree_ind.
  intros Hclosed.
  destruct (String.eqb_spec url EmptyString) as [-> | Hurl].
  - cbn [finishSchemaContext addContext String.length Nat.eqb String.eqb
         joinPtr].
    rewrite Hs. f_equal. apply map_ext_Forall.
    cbn [urlClosed String.eqb orb andb] in Hclosed.
    rewrite forallb_forall in Hclosed. rewrite Forall_forall in *.
    intros c Hc. apply (IH c Hc). now apply Hclosed.
  - rewrite finishSchemaContext_set by exact Hurl.
    symmetry. apply addContext_empty_instance.
    cbn [urlClosed allFinalized] in *.
    rewrite (eqb_empty_false url Hurl) in *. cbn [orb negb andb] in *.
    apply andb_true_iff in Hclosed as [Hall _]. rewrite Hall.
    apply orb_true_r.
Qed.

(** X6: a schema with an empty URL does not freeze anything: on a tree in
    which no node with a schema URL has a descendant without one, finishing
    against it is attaching its pointer as a schema prefix, and the nodes
    stay open for the next call. *)
Theorem finishSchemaContext_empty_URL (ve : ValidationError) (s : Schema)
  (Hs : URL s = EmptyString) (Hclosed : urlClosed ve = true) :
  finishSchemaContext ve s = addContext EmptyString (Ptr s) ve.
Proof. now apply finishSchemaContext_no_URL. Qed.

Lemma finishSchemaContext_empty_URL_witness :
  finishSchemaContext
    (add (validationError "allOf" "p") [validationError "type" "t"])
    (mkSchema EmptyString "#/definitions/a")
  = addContext EmptyString "#/definitions/a"
      (add (validationError "allOf" "p") [validationError "type" "t"]).
Proof.
  apply (finishSchemaContext_empty_URL
           (add (validationError "allOf" "p") [validationError "type" "t"])
           (mkSchema EmptyString "#/definitions/a"));
    reflexivity.
Defined.

Lemma Causes_finishSchemaContext_length (ve : ValidationError) (s : Schema) :
  List.length (Causes (finishSchemaContext ve s)) = List.length (Causes ve).
Proof.
  destruct ve as [msg ip url sp causes]. cbn [finishSchemaContext].
  destruct (Nat.eqb (String.length url) 0); cbn [Causes];
    [apply length_map | reflexivity].
Qed.

(** X7: [finishSchemaContext] keeps the shape of the tree and every message
    and instance path; a node either keeps its schema URL and schema path,
    or had no schema URL and receives the URL of the schema and its pointer
    in front of the schema path. *)
Theorem finishSchemaContext_every_node (ve : ValidationError) (s : Schema) :
  nodewise
    (fun n n' =>
       Message n' = Message n /\
       InstancePtr n' = InstancePtr n /\
       List.length (Causes n') = List.length (Causes n) /\
       (SchemaURL n' = SchemaURL n /\ SchemaPtr n' = SchemaPtr n \/
        SchemaURL n = EmptyString /\ SchemaURL n' = URL s /\
        SchemaPtr n' = joinPtr (Ptr s) (SchemaPtr n)))
    ve (finishSchemaContext ve s).
Proof.
  intros path. revert ve.
  induction path as [|i path IH]; intros ve.
  - cbn [subtree_at]. destruct ve as [msg ip url sp causes].
    cbn [finishSchemaContext].
    destruct (Nat.eqb (String.length url) 0) eqn:E; cbn.
    + rewrite length_zero_eqb in E. apply String.eqb_eq in E as ->.
      repeat split; [apply length_map | now right].
    + repeat split. now left.
  - destruct ve as [msg ip url sp causes].
    cbn [finishSchemaContext].
    destruct (Nat.eqb (String.length url) 0) eqn:E.
    + cbn [subtree_at Causes]. rewrite nth_error_map.
      destruct (nth_error causes i) as [c|]; [apply IH | exact I].
    + destruct (subtree_at (i :: path)
                  (mkValidationError msg ip url sp causes)) as [n|];
        [repeat split; now left | exact I].
Qed.

(** ** Making the instance paths absolute *)

(** X8: [finishInstanceContext] applied twice is [finishInstanceContext]
    applied once, on the whole tree. *)
Theorem finishInstanceContext_twice (ve : ValidationError) :
  finishInstanceContext (finishInstanceContext ve) = finishInstanceContext ve.
Proof. apply finishInstanceContext_idempotent. Qed.

Lemma finish_commute (s : Schema) :
  forall ve,
    finishInstanceContext (finishSchemaContext ve s) =
    finishSchemaContext (finishInstanceContext ve) s.
Proof.
  induction ve as [msg ip url sp causes IH] using ValidationError_tree_ind.
  cbn [finishSchemaContext finishInstanceContext].
  destruct (Nat.eqb (String.length url) 0); [| reflexivity].
  cbn [finishInstanceContext]. f_equal. rewrite !map_map.
  apply map_ext_Forall. exact IH.
Qed.

(** X9: the two finishing steps commute: the schema side and the instance
    side of a tree may be finished in either order. *)
Theorem finishInstanceContext_finishSchemaContext (ve : ValidationError)
  (s : Schema) :
  finishInstanceContext (finishSchemaContext ve s) =
  finishSchemaContext (finishInstanceContext ve) s.
Proof. apply finish_commute. Qed.

Lemma finishInstanceContext_after_addContext (i s : string) :
  i <> EmptyString ->
  forall ve,
    finishInstanceContext (addContext i s ve) = addContext (absPtr i) s ve.
Proof.
  intros Hi.
  induction ve as [msg ip url sp causes IH] using ValidationError_tree_ind.
  cbn [addContext finishInstanceContext]. f_equal.
  - now apply absPtr_joinPtr_nonempty.
  - rewrite map_map. apply map_ext_Forall. exact IH.
Qed.

(** X10: making a tree absolute after a non-empty instance prefix has been
    attached is attaching the absolute prefix: the paths below the prefix
    are not touched again. *)
Theorem finishInstanceContext_addContext (i s : string) (ve : ValidationError)
  (Hi : i <> EmptyString) :
  finishInstanceContext (addContext i s ve) = addContext (absPtr i) s ve.
Proof. now apply finishInstanceContext_after_addContext. Qed.

Lemma finishInstanceContext_addContext_witness :
  finishInstanceContext
    (addContext "items" "items"
       (add (validationError "allOf" "p") [validationError "type" "t"]))
  = addContext "#/items" "items"
      (add (validationError "allOf" "p") [validationError "type" "t"]).
Proof.
  apply (finishInstanceContext_addContext "items" "items"
           (add (validationError "allOf" "p") [validationError "type" "t"])).
  discriminate.
Defined.

(** ** Adding causes *)

Lemma add_fold (causes : list ValidationError) :
  forall ve,
    add ve causes =
    mkValidationError (Message ve) (InstancePtr ve) (SchemaURL ve)
      (SchemaPtr ve)
      (Causes ve
         ++ map (addContext (InstancePtr ve) (SchemaPtr ve)) causes)%list.
Proof.
  unfold add.
  induction causes as [|c causes IH]; intros ve; cbn [fold_left map].
  - rewrite app_nil_r. now destruct ve.
  - rewrite IH. unfold add1 at 1 2 3 4 5 6 7.
    cbn [Message InstancePtr SchemaURL SchemaPtr Causes].
    now rewrite <- app_assoc.
Qed.

(** X11: [add] keeps the fields and the earlier causes of the receiver and
    appends the new causes in the order given, each with the instance path
    and the schema path of the receiver attached as context. *)
Theorem add_appends_in_order (ve : ValidationError)
  (causes : list ValidationError) :
  add ve causes =
  mkValidationError (Message ve) (InstancePtr ve) (SchemaURL ve)
    (SchemaPtr ve)
    (Causes ve
       ++ map (addContext (InstancePtr ve) (SchemaPtr ve)) causes)%list.
Proof. apply add_fold. Qed.



(** ** Rendering *)

Lemma concat_String (sep : string) (b : ascii) (piece : string)
  (pieces : list string) :
  String.concat sep (String b piece :: pieces) =
  String b (String.concat sep (piece :: pieces)).
Proof. destruct pieces; reflexivity. Qed.

Lemma concat_Split (s : string) :
  String.concat (String newline EmptyString) (Split s newline) = s.
Proof.
  induction s as [|b s IH]; [reflexivity |].
  rewrite Split_cons.
  destruct (Split_pieces s) as (piece & pieces & E). rewrite E in IH |- *.
  destruct (Ascii.eqb_spec b newline) as [-> | Hb].
  - change (String.concat (String newline EmptyString)
              (EmptyString :: piece :: pieces))
      with (String newline
              (String.concat (String newline EmptyString) (piece :: pieces))).
    now rewrite IH.
  - now rewrite concat_String, IH.
Qed.

(** X13: the tree rendering consists of the lines of the single-node
    rendering followed by the lines of the tree rendering of each cause, in
    the order of the causes, each two spaces to the right; the rendering is
    these lines with a line break between neighbours. *)
Theorem GoString_lines (ve : ValidationError) :
  Split (GoString ve) newline = renderLines ve /\
  GoString ve = String.concat (String newline EmptyString) (renderLines ve).
Proof.
  split; [apply Split_GoString |].
  rewrite <- Split_GoString. symmetry. apply concat_Split.
Qed.

Lemma indent_two (depth : nat) (line : string) :
  indent depth ("  " ++ line) = indent (S depth) line.
Proof.
  induction depth as [|d IH]; [reflexivity |].
  cbn [indent] in *. now rewrite IH.
Qed.

Lemma depthLines_renderLines :
  forall ve,
    Forall (fun n => oneLine (Error n) = true) (nodes ve) ->
    forall depth, map (indent depth) (renderLines ve) = depthLines depth ve.
Proof.
  induction ve as [msg ip url sp causes IH] using ValidationError_tree_ind.
  cbn [nodes]. intros Hlines depth.
  apply Forall_cons_iff in Hlines as [Hline Hcauses].
  cbn [renderLines depthLines]. rewrite (Split_oneLine _ Hline).
  cbn [List.app map]. f_equal. rewrite map_map.
  rewrite Forall_flat_map in Hcauses. clear Hline.
  induction IH as [|c causes Hc _ IHcauses]; [reflexivity |].
  apply Forall_cons_iff in Hcauses as [Hcline Hcauses].
  cbn [flat_map]. rewrite map_app, (IHcauses Hcauses). f_equal.
  rewrite <- (Hc Hcline (S depth)). apply map_ext. intros l.
  apply indent_two.
Qed.

Lemma depthLines_length (ve : ValidationError) :
  forall depth,
    List.length (depthLines depth ve) = List.length (nodes ve).
Proof.
  induction ve as [msg ip url sp causes IH] using ValidationError_tree_ind.
  intros depth. cbn [depthLines nodes List.length]. f_equal.
  generalize (S depth) as d.
  induction IH as [|c causes Hc _ IHcauses]; intros d; [reflexivity |].
  cbn [flat_map]. now rewrite !length_app, Hc, IHcauses.
Qed.

(** X14: when no single-node rendering of the tree contains a line break,
    the tree rendering has one line per node, depth first with the causes
    in order, and the line of a node is its single-node rendering moved two
    spaces to the right for every level below the root. *)
Theorem GoString_one_line_per_node (ve : ValidationError)
  (Hlines : Forall (fun n => oneLine (Error n) = true) (nodes ve)) :
  Split (GoString ve) newline = depthLines 0 ve /\
  List.length (Split (GoString ve) newline) = List.length (nodes ve).
Proof.
  assert (H : Split (GoString ve) newline = depthLines 0 ve).
  { rewrite Split_GoString, <- (depthLines_renderLines ve Hlines 0).
    cbn [indent]. now rewrite map_id. }
  split; [exact H |]. rewrite H. apply depthLines_length.
Qed.

Lemma GoString_one_line_per_node_witness :
  Split (GoString (crossReferenceTree (mkSchema "root.json" "#"))) newline =
    depthLines 0 (crossReferenceTree (mkSchema "root.json" "#")) /\
  List.length
    (Split (GoString (crossReferenceTree (mkSchema "root.json" "#"))) newline)
  = List.length (nodes (crossReferenceTree (mkSchema "root.json" "#"))).
Proof.
  apply (GoString_one_line_per_node
           (crossReferenceTree (mkSchema "root.json" "#"))).
  repeat constructor.
Defined.

Lemma indentLines_app (lines : list string) :
  forall msg, indentLines msg lines = msg ++ indentLines EmptyString lines.
Proof.
  unfold indentLines.
  induction lines as [|l lines IH]; intros msg; cbn [fold_left].
  - now rewrite append_empty_r.
  - rewrite IH. rewrite (IH (EmptyString ++ _)). cbn [append].
    now rewrite append_assoc.
Qed.

Lemma indentLines_Split_nonempty (s : string) :
  indentLines EmptyString (Split s newline) <> EmptyString.
Proof.
  destruct (Split_pieces s) as (piece & pieces & ->).
  unfold indentLines. cbn [fold_left]. fold (indentLines
    (EmptyString ++ String newline "  " ++ piece) pieces).
  rewrite indentLines_app. discriminate.
Qed.

Lemma renderCauses_app (causes : list ValidationError) :
  forall acc,
    fold_left (fun msg c => indentLines msg (Split (GoString c) newline))
      causes acc
    = acc ++ fold_left
               (fun msg c => indentLines msg (Split (GoString c) newline))
               causes EmptyString.
Proof.
  induction causes as [|c causes IH]; intros acc; cbn [fold_left].
  - now rewrite append_empty_r.
  - rewrite IH, (IH (indentLines EmptyString _)).
    rewrite (indentLines_app _ acc). now rewrite append_assoc.
Qed.

(** X15: the tree rendering starts with the single-node rendering, and is
    equal to it exactly when the node has no causes. *)
Theorem GoString_extends_Error (ve : ValidationError) :
  exists rest,
    GoString ve = Error ve ++ rest /\
    (rest = EmptyString <-> Causes ve = []).
Proof.
  destruct ve as [msg ip url sp causes]. cbn [GoString Causes].
  rewrite renderCauses_app. eexists. split; [reflexivity |].
  destruct causes as [|c causes]; [now split |].
  cbn [fold_left]. rewrite renderCauses_app. split; [| discriminate].
  intros H. exfalso.
  destruct (indentLines EmptyString (Split (GoString c) newline)) eqn:E;
    [now apply indentLines_Split_nonempty in E | discriminate H].
Qed.

(** ** The way of a failure through the validator *)

Lemma attachAll_validationError (contexts : list (string * string))
  (keyword message : string) :
  attachAll contexts (validationError keyword message) =
  mkValidationError message (joinAll (map fst contexts)) EmptyString
    (joinAll (map snd contexts ++ [keyword])) [].
Proof.
  induction contexts as [|[i s] contexts IH].
  - cbn. now rewrite joinPtr_empty_r.
  - rewrite attachAll_cons, IH. reflexivity.
Qed.

(** X16: a failure raised for a keyword, given the contexts of the
    enclosing keywords and finished at the top, has as instance path the
    root marker followed by the non-empty instance fragments from the
    outermost to the innermost, as schema URL the URL of the schema, and as
    schema path the pointer of the schema followed by the non-empty schema
    fragments in the same order and the keyword. *)
Theorem validateLeaf_paths (contexts : list (string * string))
  (keyword message : string) (s : Schema) :
  validateLeaf contexts keyword message s =
  mkValidationError message
    (absPtr (String.concat "/" (filter nonEmpty (map fst contexts))))
    (URL s)
    (joinPtr (Ptr s)
       (String.concat "/" (filter nonEmpty (map snd contexts ++ [keyword]))))
    [].
Proof.
  unfold validateLeaf. rewrite attachAll_validationError.
  now rewrite !joinAll_concat.
Qed.

(** The scenario of a property age whose type keyword fails. *)
Lemma validateLeaf_example :
  validateLeaf [("age", "properties/age")] "type" "expected integer"
    (mkSchema "root.json" "#")
  = mkValidationError "expected integer" "#/age" "root.json"
      "#/properties/age/type" [].
Proof. reflexivity. Qed.

(** ** Invariants of the trees the validator builds *)

(** X17: in a tree built by raising failures, adding causes to failures not
    yet finished, attaching contexts and finishing, one call of
    [finishSchemaContext] against a schema whose URL is not empty leaves no
    node without a schema URL. *)
Theorem built_finishSchemaContext_all_finalized (ve : ValidationError)
  (s : Schema) (Hbuilt : built ve) (Hs : URL s <> EmptyString) :
  Forall (fun n => SchemaURL n <> EmptyString)
    (nodes (finishSchemaContext ve s)).
Proof.
  apply allFinalized_nodes. now apply built_all_finalized.
Qed.

Lemma built_finishSchemaContext_all_finalized_witness :
  Forall (fun n => SchemaURL n <> EmptyString)
    (nodes
       (finishSchemaContext
          (add1 (validationError "$ref" "r")
             (finishSchemaContext (validationError "required" "m")
                (mkSchema "defs.json" "#")))
          (mkSchema "root.json" "#"))).
Proof.
  apply (built_finishSchemaContext_all_finalized
           (add1 (validationError "$ref" "r")
              (finishSchemaContext (validationError "required" "m")
                 (mkSchema "defs.json" "#")))
           (mkSchema "root.json" "#")).
  - apply built_add1.
    + apply built_validationError.
    + reflexivity.
    + apply built_finishSchemaContext, built_validationError.
  - discriminate.
Defined.

Lemma allFinalized_rooted :
  forall ve,
    allFinalized ve = true -> finalizedRooted ve = true ->
    Forall (fun n => rootedb (SchemaPtr n) = true) (nodes ve).
Proof.
  induction ve as [msg ip url sp causes IH] using ValidationError_tree_ind.
  cbn [allFinalized finalizedRooted nodes].
  rewrite !andb_true_iff, negb_true_iff. intros [Hurl Hall] [Hsp Hroot].
  rewrite Hurl in Hsp. cbn [orb] in Hsp.
  constructor; [exact Hsp |]. apply Forall_flat_map.
  rewrite forallb_forall in Hall, Hroot. rewrite Forall_forall in *.
  intros c Hc. apply (IH c Hc); [now apply Hall | now apply Hroot].
Qed.

Lemma finishSchemaContext_rooted (s : Schema) :
  rootedb (Ptr s) = true -> URL s <> EmptyString ->
  forall ve,
    urlClosed ve = true -> finalizedRooted ve = true ->
    Forall (fun n => rootedb (SchemaPtr n) = true)
      (nodes (finishSchemaContext ve s)).
Proof.
  intros Hptr Hs.
  induction ve as [msg ip url sp causes IH] using ValidationError_tree_ind.
  intros Hclosed Hroot.
  destruct (String.eqb_spec url EmptyString) as [-> | Hurl].
  - cbn [finishSchemaContext String.length Nat.eqb nodes].
    cbn [urlClosed finalizedRooted String.eqb orb andb] in Hclosed, Hroot.
    constructor.
    + cbn [SchemaPtr]. apply rootedb_rooted, rooted_joinPtr.
      now apply rootedb_rooted.
    + apply Forall_flat_map. rewrite Forall_map.
      rewrite forallb_forall in Hclosed, Hroot. rewrite Forall_forall in *.
      intros c Hc. apply (IH c Hc); [now apply Hclosed | now apply Hroot].
  - rewrite finishSchemaContext_set by exact Hurl.
    apply allFinalized_rooted; [| exact Hroot].
    cbn [urlClosed allFinalized] in *.
    rewrite (eqb_empty_false url Hurl) in *. cbn [orb negb andb] in *.
    now apply andb_true_iff in Hclosed as [Hall _].
Qed.

(** X18: when the pointer of the schema starts with the root marker and
    its URL is not empty, and in the tree no node with a schema URL has a
    descendant without one and the nodes with a schema URL have schema
    paths that start with the root marker, then after
    [finishSchemaContext] the schema path of every node starts with the
    root marker. *)
Theorem finishSchemaContext_all_schema_rooted (ve : ValidationError)
  (s : Schema)
  (Hptr : rootedb (Ptr s) = true) (Hs : URL s <> EmptyString)
  (Hclosed : urlClosed ve = true) (Hroot : finalizedRooted ve = true) :
  Forall (fun n => rooted (SchemaPtr n)) (nodes (finishSchemaContext ve s)).
Proof.
  eapply Forall_impl; [| now apply finishSchemaContext_rooted].
  intros n Hn. now apply rootedb_rooted.
Qed.

Lemma finishSchemaContext_all_schema_rooted_witness :
  Forall (fun n => rooted (SchemaPtr n))
    (nodes
       (finishSchemaContext
          (add (validationError "$ref" "r")
             [finishSchemaContext (validationError "required" "m")
                (mkSchema "defs.json" "#")])
          (mkSchema "root.json" "#/properties/addr"))).
Proof.
  apply (finishSchemaContext_all_schema_rooted
           (add (validationError "$ref" "r")
              [finishSchemaContext (validationError "required" "m")
                 (mkSchema "defs.json" "#")])
           (mkSchema "root.json" "#/properties/addr"));
    [reflexivity | discriminate | reflexivity | reflexivity].
Defined.

Lemma rootedb_joinPtr_relative (i p : string) :
  i <> EmptyString -> rootedb i = false -> rootedb (joinPtr i p) = false.
Proof.
  destruct i as [|x i]; [contradiction |]. intros _ Hi.
  destruct p as [|y p]; [exact Hi |].
  rewrite joinPtr_cons. unfold rootedb in *. cbn [append String.prefix] in *.
  destruct (ascii_dec "#"%char x); [| reflexivity].
  now destruct i.
Qed.

(** X19: the order of the calls matters: a context with a non-empty
    instance prefix that does not start with the root marker leaves no
    instance path of the tree starting with the root marker, also when the
    tree had been made absolute before. *)
Theorem addContext_relative_prefix_unroots (i s : string)
  (ve : ValidationError)
  (Hi : i <> EmptyString) (Hrel : rootedb i = false) :
  Forall (fun n => ~ rooted (InstancePtr n)) (nodes (addContext i s ve)).
Proof.
  rewrite (nodes_map (addContext i s) (Causes_addContext i s)).
  apply Forall_map, Forall_forall. intros n _ Hn.
  apply rootedb_rooted in Hn. rewrite InstancePtr_addContext in Hn.
  now rewrite (rootedb_joinPtr_relative i _ Hi Hrel) in Hn.
Qed.

Lemma addContext_relative_prefix_unroots_witness :
  Forall (fun n => ~ rooted (InstancePtr n))
    (nodes
       (addContext "addr" "properties/addr"
          (finishInstanceContext
             (add (validationError "allOf" "p") [validationError "type" "t"])))).
Proof.
  apply (addContext_relative_prefix_unroots "addr" "properties/addr"
           (finishInstanceContext
              (add (validationError "allOf" "p")
                 [validationError "type" "t"])));
    [discriminate | reflexivity].
Defined.
